(** * Hermetik liquidity model: the feature / label / ensemble / backtest core

    A shallow embedding of [main_ec2.py]: the token-flow graph and its
    centrality fallbacks, quantile labelling, the multi-timeframe ensemble,
    the token allow-list filter, the one-week backtest and the walk-forward
    loop.

    Conventions.
    - A pandas data frame is a list of records, one per row.
    - pandas floats are modelled by exact rationals ([Q]); integer columns
      are [Z].
    - A Python [dict] keeps insertion order, so it is an association list;
      a Python [set] is a [gset].
    - A call that may raise returns a [result]; [try ... except] is
      [try_except].
    - networkx, scikit-learn, S3 and the RPC symbol lookup are external:
      they are Section variables. *)

From stdpp Require Import gmap strings list sorting.
From Stdlib Require Import ZArith QArith Qround Lia Lqa.

Local Open Scope Z_scope.

(** ** Log events (one row of an [oneinch_logs] table) *)

Record LogEvent := mkLog {
  transaction_hash : string;
  contract_address : string;
  input_token : string;
  output_token : string;
  block_number : Z
}.

(** ** calculate_contract_centrality: the token-flow graph *)

(** [contract_tokens[contract].add(...)], creating the entry when the key
    is new; the key order is the order of first insertion. *)
Fixpoint dict_add (contract : string) (toks : gset string)
    (d : list (string * gset string)) : list (string * gset string) :=
  match d with
  | [] => [(contract, ∅ ∪ toks)]
  | (k, s) :: d' =>
      if decide (k = contract) then (k, s ∪ toks) :: d'
      else (k, s) :: dict_add contract toks d'
  end.

(** The first loop of [calculate_contract_centrality]: every row adds its
    input token and its output token to the one set kept per contract. *)
Definition contract_tokens (logs_df : list LogEvent) : list (string * gset string) :=
  foldl (λ d row, dict_add (contract_address row)
                    ({[input_token row]} ∪ {[output_token row]}) d) [] logs_df.

(** [for i, x in enumerate(l)] *)
Definition enumerate {A} (l : list A) : list (nat * A) := imap (λ i x, (i, x)) l.

(** The double loop building [edges]. *)
Definition build_edges (ct : list (string * gset string)) : list (string * string * nat) :=
  '(i, (contract1, contract1_outputs)) ← enumerate ct;
  '(j, (contract2, contract2_inputs)) ← enumerate ct;
  if decide (i ≠ j) then
    if decide (contract1_outputs ∩ contract2_inputs ≠ ∅) then
      [(contract1, contract2, size (contract1_outputs ∩ contract2_inputs))]
    else []
  else [].

(** [nx.DiGraph()] followed by [add_weighted_edges_from]: the graph is the
    finite map from edges to weights; its nodes are the edge endpoints (no
    node is added otherwise). *)
Definition add_weighted_edges_from (edges : list (string * string * nat))
    (G : gmap (string * string) nat) : gmap (string * string) nat :=
  foldl (λ G e, <[(e.1.1, e.1.2) := e.2]> G) G edges.

Definition G_nodes (G : gmap (string * string) nat) : gset string :=
  set_map fst (dom G) ∪ set_map snd (dom G).

Definition token_flow_graph (logs_df : list LogEvent) : gmap (string * string) nat :=
  add_weighted_edges_from (build_edges (contract_tokens logs_df)) ∅.

(** The sets the specification speaks of: the tokens a contract is observed
    to send, and those it is observed to receive. *)
Definition spec_outputs (logs_df : list LogEvent) (c : string) : gset string :=
  list_to_set (output_token <$> filter (λ r, contract_address r = c) logs_df).

Definition spec_inputs (logs_df : list LogEvent) (c : string) : gset string :=
  list_to_set (input_token <$> filter (λ r, contract_address r = c) logs_df).

(** What the source keeps instead: every token the contract touches. *)
Definition touched (logs_df : list LogEvent) (c : string) : gset string :=
  spec_inputs logs_df c ∪ spec_outputs logs_df c.

(** Two rows: contract A swaps X for Y, contract B swaps Z for X. *)
Definition c1_logs : list LogEvent :=
  [ mkLog "0xt1" "A" "X" "Y" 100; mkLog "0xt2" "B" "Z" "X" 101 ].


(** ** Exceptions *)

(** The outcome of a call that may raise. *)
Inductive result (A : Type) : Type :=
  | Ok (a : A)
  | Raise.
Arguments Ok {A} a.
Arguments Raise {A}.

(** [try: body / except: handler] with a bare [except]. *)
Definition try_except {A} (body handler : result A) : result A :=
  match body with
  | Ok a => Ok a
  | Raise => handler
  end.

(** The value a [try] block leaves in its variable: the body's when it
    returns, the handler's otherwise. *)
Definition try_value {A} (body : result A) (handler : A) : A :=
  match body with
  | Ok a => a
  | Raise => handler
  end.

(** Sequencing: an exception of the first statement is propagated. *)
Definition and_then {A B} (c : result A) (k : A → result B) : result B :=
  match c with
  | Ok a => k a
  | Raise => Raise
  end.

(** ** calculate_contract_centrality: the three centrality dictionaries *)

(** [{node: 0 for node in G.nodes()}] *)
Definition zero_centrality (G : gmap (string * string) nat) : gmap string Q :=
  gset_to_gmap 0%Q (G_nodes G).

(** Number of edges entering [n]. *)
Definition in_degree (G : gmap (string * string) nat) (n : string) : nat :=
  size (filter (λ e, e.2 = n) (dom G)).

(** [nx.in_degree_centrality]: the in-degree divided by [len(G) - 1]; on a
    graph with at most one node every node gets 1. *)
Definition nx_in_degree_centrality (G : gmap (string * string) nat) : gmap string Q :=
  if decide (size (G_nodes G) ≤ 1)%nat then gset_to_gmap 1%Q (G_nodes G)
  else
    let s := (1 / (inject_Z (Z.of_nat (size (G_nodes G))) - 1))%Q in
    set_to_map (λ n, (n, (inject_Z (Z.of_nat (in_degree G n)) * s)%Q)) (G_nodes G).

Section CentralityEngine.
(** The networkx algorithms called on the graph; [Raise] stands for any
    exception they throw. *)
Variable nx_betweenness_centrality : gmap (string * string) nat → result (gmap string Q).
Variable nx_closeness_centrality : gmap (string * string) nat → result (gmap string Q).
Variable nx_power_iteration : gmap (string * string) nat → result (gmap string Q).
Variable nx_eigenvector_centrality_numpy : gmap (string * string) nat → result (gmap string Q).

Definition calculate_contract_centrality (logs_df : list LogEvent)
  : result (gmap string Q * gmap string Q * gmap string Q * gmap (string * string) nat) :=
  let G := token_flow_graph logs_df in
  and_then (try_except (nx_betweenness_centrality G) (Ok (zero_centrality G)))
    (λ betweenness_centrality,
  and_then (try_except (nx_closeness_centrality G) (Ok (zero_centrality G)))
    (λ closeness_centrality,
  and_then (try_except (nx_power_iteration G)
              (try_except (nx_eigenvector_centrality_numpy G)
                 (Ok (nx_in_degree_centrality G))))
    (λ eigenvector_centrality,
  Ok (betweenness_centrality, closeness_centrality, eigenvector_centrality, G)))).
End CentralityEngine.

(** The value the specification's fallback policy gives one metric: the
    exact algorithm, else (where there is one) the alternative solve, else
    in-degree centrality. *)
Definition spec_three_tier (G : gmap (string * string) nat)
    (exact : result (gmap string Q)) (alternative : option (result (gmap string Q)))
  : gmap string Q :=
  match exact with
  | Ok d => d
  | Raise =>
      match alternative with
      | Some (Ok d) => d
      | _ => nx_in_degree_centrality G
      end
  end.

(** ** Feature tables *)

(** One row of [groupby("Contract Address").agg(...)] with [activity_span]. *)
Record BaseRow := mkBase {
  contract : string;
  tx_count : Z;
  min_block : Z;
  max_block : Z;
  activity_span : Z
}.

(** A row once the three centrality columns are added. *)
Record FeatureRow := mkFeat {
  base : BaseRow;
  betweenness_centrality : Q;
  closeness_centrality : Q;
  eigenvector_centrality : Q
}.

(** The rows of one group. *)
Definition rows_of (logs_df : list LogEvent) (c : string) : list LogEvent :=
  filter (λ r, contract_address r = c) logs_df.

(** The group keys, sorted as [groupby] sorts them. *)
Definition group_keys (logs_df : list LogEvent) : list string :=
  merge_sort String.le (remove_dups (contract_address <$> logs_df)).

Definition Zlist_min (l : list Z) : Z :=
  match l with [] => 0 | x :: l' => foldl Z.min x l' end.

Definition Zlist_max (l : list Z) : Z :=
  match l with [] => 0 | x :: l' => foldl Z.max x l' end.

Definition agg_row (logs_df : list LogEvent) (c : string) : BaseRow :=
  let g := rows_of logs_df c in
  let lo := Zlist_min (block_number <$> g) in
  let hi := Zlist_max (block_number <$> g) in
  mkBase c (Z.of_nat (length g)) lo hi (hi - lo).

(** [_features_from_logs_df], and the same aggregation where it is inlined. *)
Definition features_from_logs_df (logs_df : list LogEvent) : list BaseRow :=
  agg_row logs_df <$> group_keys logs_df.

(** [features["contract"].map(d).fillna(0)] for one row. *)
Definition map_fillna (d : gmap string Q) (c : string) : Q := default 0%Q (d !! c).

Definition add_centrality (b c e : gmap string Q) (row : BaseRow) : FeatureRow :=
  mkFeat row (map_fillna b (contract row)) (map_fillna c (contract row))
         (map_fillna e (contract row)).

Section FeatureEngineering.
Variable nx_betweenness_centrality : gmap (string * string) nat → result (gmap string Q).
Variable nx_closeness_centrality : gmap (string * string) nat → result (gmap string Q).
Variable nx_power_iteration : gmap (string * string) nat → result (gmap string Q).
Variable nx_eigenvector_centrality_numpy : gmap (string * string) nat → result (gmap string Q).

(** The feature-engineering block shared by
    generate_training_data_from_rolling, infer_top_multi_timeframe,
    infer_top and pull_and_process_data_for_date. *)
Definition engineer_features (logs_df : list LogEvent) : result (list FeatureRow) :=
  let features := features_from_logs_df logs_df in
  and_then (calculate_contract_centrality nx_betweenness_centrality
              nx_closeness_centrality nx_power_iteration
              nx_eigenvector_centrality_numpy logs_df)
    (λ '(b, c, e, _), Ok (add_centrality b c e <$> features)).
End FeatureEngineering.

(** A batch with an isolated contract: C shares no token with A or B. *)
Definition c8_logs : list LogEvent :=
  [ mkLog "0xt1" "A" "X" "Y" 100; mkLog "0xt2" "B" "Y" "X" 101;
    mkLog "0xt3" "C" "U" "V" 102 ].

(** An algorithm that scores every node of the graph 1/2. *)
Definition half_centrality (G : gmap (string * string) nat) : result (gmap string Q) :=
  Ok (gset_to_gmap (1 # 2)%Q (G_nodes G)).

(** An algorithm that always raises. *)
Definition failing_centrality (G : gmap (string * string) nat) : result (gmap string Q) :=
  Raise.


(** ** Quantiles and quantile labels *)

#[global] Instance Qle_decision : RelDecision Qle :=
  λ x y, match Qlt_le_dec y x with
         | left H => right (Qlt_not_le _ _ H)
         | right H => left H
         end.

(** [Series.quantile(q)] with pandas' default linear interpolation: on the
    sorted values [v], at the position [h = (n - 1) * q], the result is
    [v[lo] + (v[hi] - v[lo]) * (h - lo)] with [lo = floor h] and
    [hi = min (lo + 1) (n - 1)].  On an empty column the result is NaN,
    here [None]. *)
Definition pd_quantile (q : Q) (values : list Q) : option Q :=
  match values with
  | [] => None
  | _ :: _ =>
      let v := merge_sort Qle values in
      let n := Z.of_nat (length values) in
      let h := (inject_Z (n - 1) * q)%Q in
      let lo := Qfloor h in
      let hi := Z.min (lo + 1) (n - 1) in
      let a := nth (Z.to_nat lo) v 0%Q in
      let b := nth (Z.to_nat hi) v 0%Q in
      Some (a + (b - a) * (h - inject_Z lo))%Q
  end.

(** [(x >= threshold).astype(int)]; a comparison with NaN is false. *)
Definition ge_label (x : Q) (threshold : option Q) : Z :=
  match threshold with
  | Some t => if decide (t <= x)%Q then 1 else 0
  | None => 0
  end.

(** [groupby("Contract Address")] counting the rows of each group. *)
Definition groupby_count (logs_df : list LogEvent) : list (string * Z) :=
  (λ c, (c, Z.of_nat (length (rows_of logs_df c)))) <$> group_keys logs_df.

(** Absolute-activity labels, as in generate_training_data and in
    backtest_one_week.label_from_future: [future_tx_count] per contract of
    the forward window, labelled against its own 0.9 quantile. *)
Definition absolute_activity_labels (future_df : list LogEvent) : list (string * Z) :=
  let liq := groupby_count future_df in
  let thr := pd_quantile (9 # 10) (inject_Z <$> liq.*2) in
  (λ r, (r.1, ge_label (inject_Z r.2) thr)) <$> liq.

(** The number of rows labelled 1. *)
Definition count_positive (labels : list (string * Z)) : nat :=
  length (filter (λ r, r.2 = 1) labels).

(** A forward window with two contracts: A has one transaction, B two. *)
Definition c4_future : list LogEvent :=
  [ mkLog "0xt1" "A" "X" "Y" 200; mkLog "0xt2" "B" "X" "Y" 201;
    mkLog "0xt3" "B" "Y" "X" 202 ].


(** ** Growth-rate labels (generate_training_data_from_rolling) *)

Record GrowthRow := mkGrowth {
  g_contract : string;
  volume_1d_current : Z;
  volume_future : Z;
  volume_growth_pct : Q;
  g_label : Z
}.

(** [(volume_future - volume_1d_current) / (volume_1d_current + 1) * 100] *)
Definition growth_pct (current future : Z) : Q :=
  ((inject_Z future - inject_Z current) / (inject_Z current + 1) * 100)%Q.

(** [pd.merge(volume_1d_current, volume_future, on="contract", how="left")
    .fillna(0)]: one row per contract of the current table, with 0 where the
    future table has no such contract. *)
Definition merge_left_fillna (current future : list (string * Z)) : list (string * Z * Z) :=
  (λ r, (r.1, r.2, default 0 ((list_to_map future : gmap string Z) !! r.1))) <$> current.

Definition volume_growth (logs_1d_current_df logs_historical_df : list LogEvent)
  : list GrowthRow :=
  let volume_1d_current := groupby_count logs_1d_current_df in
  let volume_future := groupby_count logs_historical_df in
  let merged := merge_left_fillna volume_1d_current volume_future in
  let pct := (λ m, growth_pct m.1.2 m.2) <$> merged in
  let threshold := pd_quantile (8 # 10) pct in
  (λ m, mkGrowth m.1.1 m.1.2 m.2 (growth_pct m.1.2 m.2)
          (ge_label (growth_pct m.1.2 m.2) threshold)) <$> merged.


(** ** backtest_one_week *)

(** [df.loc[(block >= lo) & (block <= hi)]] for day [i]. *)
Definition day_slice (df : list LogEvent) (start_block blocks_per_day : Z) (i : nat)
  : list LogEvent :=
  let lo := start_block + Z.of_nat i * blocks_per_day in
  let hi := lo + blocks_per_day - 1 in
  filter (λ r, lo ≤ block_number r ∧ block_number r ≤ hi) df.

(** The seven block-range slices of the one-week table. *)
Definition week_slices (df : list LogEvent) (blocks_per_day : Z) : list (list LogEvent) :=
  let max_block := Zlist_max (block_number <$> df) in
  let start_block := max_block - 7 * blocks_per_day + 1 in
  day_slice df start_block blocks_per_day <$> seq 0 7.

(** [slices[k]] *)
Definition slice_at (slices : list (list LogEvent)) (k : nat) : list LogEvent :=
  default [] (slices !! k).

(** [label_from_future(day_idx)]: the labels of the forward window made of
    the slices [day_idx + 1 .. day_idx + 3] that exist. *)
Definition label_from_future (slices : list (list LogEvent)) (day_idx : nat)
  : list (string * Z) :=
  let future_parts :=
    omap (λ j, let k := (day_idx + j)%nat in
               if decide (k < 7)%nat then Some (slice_at slices k) else None)
         [1; 2; 3]%nat in
  match future_parts with
  | [] => []
  | _ :: _ => absolute_activity_labels (concat future_parts)
  end.

(** [features.merge(labels, on="contract", how="inner")] *)
Definition merge_inner (features : list BaseRow) (labels : list (string * Z))
  : list (BaseRow * Z) :=
  omap (λ f, (λ l, (f, l)) <$> (list_to_map labels : gmap string Z) !! contract f)
       features.

(** [DataFrame.head(n)]: the first [n] rows, or all but the last [-n]. *)
Definition df_head {A} (n : Z) (l : list A) : list A :=
  if decide (0 ≤ n) then take (Z.to_nat n) l
  else take (length l - Z.to_nat (- n)) l.

(** [hits / max(1, len(top))] *)
Definition precision_at_k (top : list string) (truth : gset string) : Q :=
  let hits := length (filter (λ c, c ∈ truth) top) in
  (inject_Z (Z.of_nat hits) / inject_Z (Z.max 1 (Z.of_nat (length top))))%Q.

(** The order of [sort_values("prob", ascending=False)]. *)
Definition prob_ge {A} (a b : A * Q) : Prop := (b.2 <= a.2)%Q.

#[global] Instance prob_ge_decision {A} : RelDecision (@prob_ge A) :=
  λ a b, Qle_decision b.2 a.2.

Section Backtest.
(** The random forest: fitted on the training rows and labels, it gives
    the positive-class probability of one test row. *)
Variable predict_proba : list (Z * Z) → list Z → Z * Z → Q.
Variable df : list LogEvent.
Variable blocks_per_day : Z.
Variable top_k : Z.

Definition slices : list (list LogEvent) := week_slices df blocks_per_day.
Definition day_features (i : nat) : list BaseRow :=
  features_from_logs_df (slice_at slices i).
Definition day_labels (i : nat) : list (string * Z) := label_from_future slices i.

(** The table day [i] adds to a training set, when it adds one. *)
Definition training_part (i : nat) : option (list (BaseRow * Z)) :=
  match day_features i, day_labels i with
  | [], _ | _, [] => None
  | _ :: _, _ :: _ =>
      match merge_inner (day_features i) (day_labels i) with
      | [] => None
      | merged => Some merged
      end
  end.

(** [X_train_parts] / [y_train_parts] of cycle [t], one table per day. *)
Definition training_parts (t : nat) : list (list (BaseRow * Z)) :=
  omap training_part (seq 0 t).

(** [sort_values("prob", ascending=False)] *)
Definition sort_by_prob (scored : list (BaseRow * Q)) : list (BaseRow * Q) :=
  merge_sort prob_ge scored.

(** One pass of the loop body for [t]; [None] is a [continue]. *)
Definition backtest_segment (t : nat) : option Q :=
  match training_parts t with
  | [] => None
  | parts =>
      let train := concat parts in
      let X_train := (λ m, (tx_count m.1, activity_span m.1)) <$> train in
      let y_train := snd <$> train in
      match day_features t, day_labels t with
      | [], _ | _, [] => None
      | X_test_df, y_true_df =>
          let scored :=
            (λ r, (r, predict_proba X_train y_train (tx_count r, activity_span r)))
              <$> X_test_df in
          let top := df_head top_k (sort_by_prob scored) in
          let truth : gset string :=
            list_to_set (fst <$> filter (λ r, r.2 = 1) y_true_df) in
          Some (precision_at_k ((contract ∘ fst) <$> top) truth)
      end
  end.

(** [results], each value with the [t] it is printed with. *)
Definition backtest_results : list (nat * Q) :=
  omap (λ t, (λ p, (t, p)) <$> backtest_segment t) (seq 0 4).

(** [sum(results) / len(results)], when there are results. *)
Definition backtest_average : option Q :=
  match backtest_results with
  | [] => None
  | rs => Some (foldr Qplus 0 rs.*2 / inject_Z (Z.of_nat (length rs)))%Q
  end.
End Backtest.

(** The condition the specification gives for a segment to be scored: some
    segment among [t+1 .. t+3] exists and some earlier segment has usable
    training pairs. *)
Definition spec_evaluable (df : list LogEvent) (blocks_per_day : Z) (t : nat) : Prop :=
  (∃ j, (1 ≤ j ≤ 3)%nat ∧ (t + j < 7)%nat) ∧
  (∃ i, (i < t)%nat ∧ is_Some (training_part df blocks_per_day i)).

(** A week with one block per day and the contracts A and B active on every
    day, A once and B twice. *)
Definition c6_week : list LogEvent :=
  i ← seq 1 7;
  [ mkLog "0xa" "A" "X" "Y" (Z.of_nat i); mkLog "0xb" "B" "X" "Y" (Z.of_nat i);
    mkLog "0xc" "B" "Y" "X" (Z.of_nat i) ].

(** A classifier that scores every row 1/2. *)
Definition const_classifier (X_train : list (Z * Z)) (y_train : list Z) (x : Z * Z) : Q :=
  1 # 2.


(** ** walk_forward_continuous_learning *)

(** One entry of [daily_performance].  Dates are datetimes in seconds;
    [timedelta(days=v)] is [86400 * v]. *)
Record DailyPerformance (Perf : Type) := mkPerf {
  day : Z;
  training_date : Z;
  validation_date : Z;
  training_samples : nat;
  validation_samples : nat;
  performance : Perf
}.
Arguments mkPerf {Perf}.
Arguments day {Perf}.
Arguments training_date {Perf}.
Arguments validation_date {Perf}.
Arguments training_samples {Perf}.
Arguments validation_samples {Perf}.
Arguments performance {Perf}.

Section WalkForward.
Context {TrainRow ValRow Model Perf : Type}.
(** [pull_and_process_data_for_date(date, bucket, "training")] and
    [(..., "validation")]; [None] is the [None] they return on failure. *)
Variable pull_training : Z → option (list TrainRow).
Variable pull_validation : Z → option (list ValRow).
Variable train_model_on_data : list TrainRow → Z → option Model.
Variable test_model_on_data : Model → list ValRow → Z → option Perf.
Variable current_dt : Z.
Variable validation_days : Z.

(** The body of the [while] loop for one day: the record it appends to
    [daily_performance], if it appends one. *)
Definition walk_forward_day (current_date day_number : Z)
  : option (DailyPerformance Perf) :=
  let next_date := current_date + 86400 * validation_days in
  match pull_training current_date with
  | None | Some [] => None
  | Some training_data =>
      match train_model_on_data training_data day_number with
      | None => None
      | Some model =>
          match pull_validation next_date with
          | None | Some [] => None
          | Some validation_data =>
              match test_model_on_data model validation_data day_number with
              | None => None
              | Some perf =>
                  Some (mkPerf day_number current_date next_date
                          (length training_data) (length validation_data) perf)
              end
          end
      end
  end.

(** The [while current_date < current_dt] loop, run for at most [fuel]
    iterations: whether it has left the loop, and [daily_performance]. *)
Fixpoint walk_forward_loop (fuel : nat) (current_date day_number : Z)
    (daily_performance : list (DailyPerformance Perf))
  : bool * list (DailyPerformance Perf) :=
  if decide (current_date < current_dt) then
    match fuel with
    | O => (false, daily_performance)
    | S fuel' =>
        let next_date := current_date + 86400 * validation_days in
        let daily_performance' :=
          match walk_forward_day current_date day_number with
          | Some record => daily_performance ++ [record]
          | None => daily_performance
          end in
        walk_forward_loop fuel' next_date (day_number + 1) daily_performance'
    end
  else (true, daily_performance).

Definition walk_forward_continuous_learning (fuel : nat) (start_dt : Z)
  : bool * list (DailyPerformance Perf) :=
  walk_forward_loop fuel start_dt 1 [].
End WalkForward.


(** Stand-ins for the external steps of the walk-forward loop: every day
    has one row of data, training and testing always succeed. *)
Definition unit_pull (date : Z) : option (list unit) := Some [()].
Definition unit_train (training_data : list unit) (day_number : Z) : option unit := Some ().
Definition unit_test (model : unit) (validation_data : list unit) (day_number : Z)
  : option unit := Some ().


(** ** The token allow-list filter (infer_top, infer_top_multi_timeframe) *)

Definition ALLOWED_TOKENS : gset string :=
  list_to_set
    [ "USDE"; "MSUSD"; "USDC"; "PYUSD"; "SUSDE"; "DAI"; "MIM"; "EUSD";
      "USD3"; "DOLA"; "SDAI"; "FRAXBP"; "USDT"; "3CRV"; "USDM"; "USDS"; "frxUSD" ].

Definition KNOWN_TOKENS : list (string * string) :=
  [ ("0xdAC17F958D2ee523a2206206994597C13D831ec7", "USDT");
    ("0xA0b86991c31D6832c4b0B9e26cB4171d43c4a9a4", "USDC");
    ("0x6B175474E89094C44Da98b954EedeAC495271d0F", "DAI");
    ("0xC02aaA39b223FE8D0A0e5C4F27eAD9083C756Cc2", "WETH");
    ("0x2260FAC5E5542a773Aa44fBCfeDf7C193bc2C599", "WBTC");
    ("0x83F20F44975D03b1b09e64809B757c47f942BEeA", "SDAI");
    ("0x9D39A5DE30e57443BfF2A8307A4256c8797A3497", "SUSDE");
    ("0x4c9EDD5852cd905f086C759E8383e09bff1E68B3", "USDE");
    ("0x6c3ea9036406852006290770BEdFcAbA0e23A0e8", "PYUSD");
    ("0x99D8a9C45b2ecA8864373A26D1459e3Dff1e17F3", "MIM");
    ("0x853d955aCEf822Db058eb8505911ED77F175b99e", "FRAX");
    ("0xf939E0A03FB07F59A73314E73794Be0E57ac1b4E", "crvUSD");
    ("0xdC035D45d973E3EC169d2276DDab16f1e407384F", "USDS");
    ("0x40D16FC0246aD3160Ccc09B8D0D3A2cD28aE6C2f", "GHO");
    ("0x57Ab1ec28D129707052df4dF418D58a2D46d5f51", "sY");
    ("0x9fE46736679d2D9a65F0992F2272dE9f3c7fa6e0", "USD3");
    ("0x0C10bF8FcB7Bf5412187A595ab97a3609160b5c6", "USDD");
    ("0x056Fd409E1d7A124BD7017459dFEa2F387b6d5Cd", "GUSD");
    ("0xFd086bC7CD5C481DCC9C85ebE478A1C0b69FCbb9", "USDT");
    ("0x8f3Cf7ad23Cd3CaDbD9735AFf958023239c6A063", "DAI");
    ("0xae78736Cd615f374D3085123A210448E74Fc6393", "rETH");
    ("0x7f39C581F595B53c5cb19bD0b3f8dA6c935E2Ca0", "wstETH");
    ("0xA35b1B31Ce002FBF2058D22F30f95D405200A15b", "ETHx") ].

(** A row of [filtered_pools]. *)
Record Pool := mkPool {
  pool_contract : string;
  pool_allowed_tokens : list string;
  pool_all_tokens : list string;
  pool_prob : Q;
  pool_tx_count : Z;
  pool_activity_span : Z;
  pool_logs_count : nat
}.

Section TokenFilter.
(** The web3 [symbol()] call with its shortened-address fallbacks, used
    for addresses outside [KNOWN_TOKENS]. *)
Variable rpc_symbol : string → string.
Variable logs_1d_df : list LogEvent.
Variable top_k : Z.

Definition get_token_symbol (token_address : string) : string :=
  match (list_to_map KNOWN_TOKENS : gmap string string) !! token_address with
  | Some symbol => symbol
  | None => rpc_symbol token_address
  end.

(** The body of the filtering loop for one ranked row: the pool it
    appends, if it appends one. *)
Definition check_pool (row : FeatureRow * Q) : option Pool :=
  let contract := contract (base row.1) in
  match rows_of logs_1d_df contract with
  | [] => None
  | contract_logs =>
      let all_tokens := elements (touched logs_1d_df contract) in
      if decide (1 ≤ length all_tokens)%nat then
        let contract_token_symbols := get_token_symbol <$> all_tokens in
        let allowed_tokens_found :=
          filter (λ s, s ∈ ALLOWED_TOKENS) contract_token_symbols in
        let all_tokens_valid :=
          bool_decide (Forall (λ s, s ∈ ALLOWED_TOKENS) contract_token_symbols) in
        if all_tokens_valid &&
           bool_decide (length allowed_tokens_found = length contract_token_symbols)
        then Some (mkPool contract allowed_tokens_found contract_token_symbols
                     row.2 (tx_count (base row.1)) (activity_span (base row.1))
                     (length contract_logs))
        else None
      else None
  end.

(** The loop over the ranked rows, with its [break] once [top_k] pools
    are kept. *)
Fixpoint filter_pools (rows : list (FeatureRow * Q)) (filtered_pools : list Pool)
  : list Pool :=
  match rows with
  | [] => filtered_pools
  | row :: rest =>
      match check_pool row with
      | Some pool =>
          let filtered_pools' := filtered_pools ++ [pool] in
          if decide (top_k ≤ Z.of_nat (length filtered_pools')) then filtered_pools'
          else filter_pools rest filtered_pools'
      | None => filter_pools rest filtered_pools
      end
  end.

(** infer_top_multi_timeframe with filtering: the best [top_k * 3] rows
    are checked. *)
Definition infer_top_multi_timeframe_filtered (scored : list (FeatureRow * Q))
  : list Pool :=
  filter_pools (df_head (top_k * 3) (merge_sort prob_ge scored)) [].

(** infer_top with filtering: [top_pools] is already cut to [top_k]. *)
Definition infer_top_filtered (scored : list (FeatureRow * Q)) : list Pool :=
  let top_pools := df_head top_k (merge_sort prob_ge scored) in
  filter_pools (df_head (top_k * 3) top_pools) [].
End TokenFilter.

(** A contract trading USDC against a token that resolves to "UNKNOWN",
    and one trading USDC against DAI. *)
Definition c5_logs : list LogEvent :=
  [ mkLog "0xt1" "P" "0xA0b86991c31D6832c4b0B9e26cB4171d43c4a9a4" "0xdead" 10;
    mkLog "0xt2" "R" "0xA0b86991c31D6832c4b0B9e26cB4171d43c4a9a4"
      "0x6B175474E89094C44Da98b954EedeAC495271d0F" 11 ].

Definition c5_rpc (token_address : string) : string := "UNKNOWN".

Definition c5_scored : list (FeatureRow * Q) :=
  (λ r, (mkFeat r 0 0 0, 1 # 2)%Q) <$> features_from_logs_df c5_logs.


(** ** The multi-timeframe ensemble (infer_top_multi_timeframe) *)

Definition timeframe_weights : list (string * Q) :=
  [ ("1D", 4 # 10); ("3D", 35 # 100); ("1W", 2 # 10); ("3W", 5 # 100);
    ("1M", 5 # 100) ]%Q.

(** [timeframe_weights.get(timeframe, 0.1)] *)
Definition timeframe_weight (timeframe : string) : Q :=
  default (1 # 10)%Q ((list_to_map timeframe_weights : gmap string Q) !! timeframe).

Definition ascii_lower (a : Ascii.ascii) : Ascii.ascii :=
  let n := Ascii.nat_of_ascii a in
  if Nat.leb 65 n && Nat.leb n 90 then Ascii.ascii_of_nat (n + 32) else a.

(** [str.lower()] on ASCII strings. *)
Fixpoint str_lower (s : string) : string :=
  match s with
  | EmptyString => EmptyString
  | String a s' => String (ascii_lower a) (str_lower s')
  end.

(** The outcome of [s3.get_object] followed by decoding the body. *)
Inductive s3_get (A : Type) : Type :=
  | Found (a : A)
  | NoSuchKey
  | OtherError.
Arguments Found {A} a.
Arguments NoSuchKey {A}.
Arguments OtherError {A}.

Section Ensemble.
Context {Model : Type}.
(** The model blobs and feature-list sidecars of the bucket. *)
Variable s3_model : string → s3_get Model.
Variable s3_feature_list : string → s3_get (list string).
(** Whether selecting the model's feature columns and calling
    [predict_proba(...)[:, 1]] goes through, and the probability it gives
    one row. *)
Variable model_accepts : Model → list string → bool.
Variable predict_proba : Model → list string → FeatureRow → Q.

(** Load a model and then its feature list. *)
Definition load_artifacts (model_key feature_list_key : string)
  : s3_get (Model * list string) :=
  match s3_model model_key with
  | Found model =>
      match s3_feature_list feature_list_key with
      | Found features_to_use => Found (model, features_to_use)
      | NoSuchKey => NoSuchKey
      | OtherError => OtherError
      end
  | NoSuchKey => NoSuchKey
  | OtherError => OtherError
  end.

(** The timeframe-specific model, else the original model; [None] when
    the timeframe is skipped. *)
Definition load_timeframe_model (timeframe : string) : option (Model * list string) :=
  let tf_lower := str_lower timeframe in
  match load_artifacts ("training/models/random_forest_" +:+ tf_lower +:+ ".pkl")
                       ("training/models/feature_list_" +:+ tf_lower +:+ ".json") with
  | Found artifacts => Some artifacts
  | OtherError => None
  | NoSuchKey =>
      match load_artifacts "training/models/random_forest.pkl"
                           "training/models/feature_list.json" with
      | Found artifacts => Some artifacts
      | _ => None
      end
  end.

(** [probabilities * weight] for one timeframe, when its model loads and
    predicts. *)
Definition weighted_probs (current_features : list FeatureRow) (timeframe : string)
  : option (list Q) :=
  match load_timeframe_model timeframe with
  | Some (model, features_to_use) =>
      if model_accepts model features_to_use then
        Some ((λ row, predict_proba model features_to_use row *
                      timeframe_weight timeframe)%Q <$> current_features)
      else None
  | None => None
  end.

(** One pass of the loop over [timeframes]. *)
Definition ensemble_step (current_features : list FeatureRow)
    (weighted_probabilities : option (list Q)) (timeframe : string)
  : option (list Q) :=
  match weighted_probs current_features timeframe with
  | None => weighted_probabilities
  | Some probs =>
      match weighted_probabilities with
      | None => Some probs
      | Some acc => Some (zip_with Qplus acc probs)
      end
  end.

(** The combined score column; [None] when no model could be loaded. *)
Definition weighted_probabilities (current_features : list FeatureRow)
    (timeframes : list string) : option (list Q) :=
  foldl (ensemble_step current_features) None timeframes.
End Ensemble.

(** A bucket holding only a 1d model and the original model. *)
Definition c10_models (key : string) : s3_get nat :=
  if decide (key = "training/models/random_forest_1d.pkl") then Found 1%nat
  else if decide (key = "training/models/random_forest.pkl") then Found 2%nat
  else NoSuchKey.

Definition c10_feature_lists (key : string) : s3_get (list string) :=
  if decide (key = "training/models/feature_list_1d.json") then Found ["tx_count"]
  else if decide (key = "training/models/feature_list.json") then Found ["tx_count"]
  else NoSuchKey.

Definition c10_accepts (model : nat) (features_to_use : list string) : bool := true.

Definition c10_predict (model : nat) (features_to_use : list string) (row : FeatureRow) : Q :=
  (1 # Pos.of_nat (model + 1))%Q.

Definition c10_features : list FeatureRow :=
  (λ r, mkFeat r 0 0 0) <$> features_from_logs_df c1_logs.

(** Equality of score columns, entry by entry, as rationals. *)
Definition scores_eq (a b : option (list Q)) : Prop :=
  option_Forall2 (Forall2 Qeq) a b.

(* ================================================================== *)
(** * Theorems *)
(* ================================================================== *)

(** ** The token-flow graph *)

Lemma dict_add_keys c t d :
  (dict_add c t d).*1 = if decide (c ∈ d.*1) then d.*1 else d.*1 ++ [c].
Proof.
  induction d as [|[k s] d IH].
  - destruct (decide (c ∈ ([] : list (string * gset string)).*1)) as [Hin|_]; [|done].
    by apply elem_of_nil in Hin.
  - cbn [dict_add]. destruct (decide (k = c)) as [->|Hne].
    + rewrite decide_True; [done | rewrite fmap_cons; apply elem_of_cons; by left].
    + rewrite !fmap_cons, IH. cbn [fst]. destruct (decide (c ∈ d.*1)) as [Hin|Hnin].
      * rewrite decide_True; [done | apply elem_of_cons; by right].
      * rewrite decide_False; [done |].
        rewrite elem_of_cons. intros [?|?]; congruence.
Qed.

Lemma dict_add_NoDup c t d : NoDup d.*1 → NoDup (dict_add c t d).*1.
Proof.
  intros Hd. rewrite dict_add_keys. case_decide; [done |].
  apply NoDup_app. split_and!; [done | | apply NoDup_singleton].
  intros x Hx ->%list_elem_of_singleton. done.
Qed.

Lemma dict_add_to_map c t d :
  (list_to_map (dict_add c t d) : gmap string (gset string)) =
  <[c := default ∅ ((list_to_map d : gmap string (gset string)) !! c) ∪ t]> (list_to_map d).
Proof.
  induction d as [|[k s] d IH]; simpl.
  - by rewrite lookup_empty.
  - destruct (decide (k = c)) as [->|Hne]; simpl.
    + by rewrite lookup_insert_eq, insert_insert_eq.
    + rewrite IH, lookup_insert_ne by done. by apply insert_insert_ne.
Qed.

Lemma contract_tokens_snoc logs r :
  contract_tokens (logs ++ [r]) =
  dict_add (contract_address r) ({[input_token r]} ∪ {[output_token r]})
           (contract_tokens logs).
Proof. unfold contract_tokens. by rewrite foldl_app. Qed.

Lemma contract_tokens_NoDup logs : NoDup (contract_tokens logs).*1.
Proof.
  induction logs as [|r logs IH] using rev_ind.
  - apply NoDup_nil_2.
  - rewrite contract_tokens_snoc. by apply dict_add_NoDup.
Qed.

Lemma touched_snoc logs r c :
  touched (logs ++ [r]) c =
  touched logs c ∪
  (if decide (contract_address r = c)
   then {[input_token r]} ∪ {[output_token r]} else ∅).
Proof.
  unfold touched, spec_inputs, spec_outputs.
  rewrite filter_app, !fmap_app, !list_to_set_app_L.
  rewrite filter_cons, filter_nil.
  destruct (decide (contract_address r = c)); simpl; set_solver.
Qed.

Lemma touched_no_rows logs c :
  c ∉ contract_address <$> logs → touched logs c = ∅.
Proof.
  intros Hc. unfold touched, spec_inputs, spec_outputs.
  assert (filter (λ r, contract_address r = c) logs = []) as ->; [|set_solver].
  induction logs as [|r logs IH]; [done |].
  rewrite filter_cons. rewrite fmap_cons, not_elem_of_cons in Hc.
  destruct Hc as [Hne Hc]. rewrite decide_False by done. auto.
Qed.

(** The dictionary built by the first loop: one entry per contract with a
    row, holding every token of its rows, inputs and outputs alike. *)
Lemma contract_tokens_lookup logs c :
  (list_to_map (contract_tokens logs) : gmap string (gset string)) !! c =
  if decide (c ∈ contract_address <$> logs) then Some (touched logs c) else None.
Proof.
  induction logs as [|r logs IH] using rev_ind.
  - rewrite decide_False; [done |]. rewrite fmap_nil. apply not_elem_of_nil.
  - rewrite contract_tokens_snoc, dict_add_to_map, touched_snoc, fmap_app.
    change (contract_address <$> [r]) with [contract_address r].
    destruct (decide (contract_address r = c)) as [->|Hne].
    + rewrite lookup_insert_eq.
      rewrite decide_True by (apply elem_of_app; right; apply list_elem_of_singleton; done).
      rewrite IH. case_decide as Hin; simpl; [done |].
      by rewrite (touched_no_rows _ _ Hin).
    + rewrite lookup_insert_ne, IH by done.
      destruct (decide (c ∈ contract_address <$> logs)) as [Hin|Hnin].
      * rewrite decide_True by (apply elem_of_app; by left).
        by rewrite (right_id_L ∅ (∪)).
      * rewrite decide_False; [done |].
        rewrite elem_of_app. intros [?|Hc]; [done |].
        apply list_elem_of_singleton in Hc. done.
Qed.

Lemma contract_tokens_elem logs c s :
  (c, s) ∈ contract_tokens logs ↔
  c ∈ contract_address <$> logs ∧ s = touched logs c.
Proof.
  rewrite (elem_of_list_to_map (M := gmap string)) by apply contract_tokens_NoDup.
  rewrite contract_tokens_lookup. case_decide; naive_solver.
Qed.

Lemma elem_of_enumerate {A} (l : list A) i x :
  (i, x) ∈ enumerate l ↔ l !! i = Some x.
Proof.
  unfold enumerate. rewrite elem_of_lookup_imap. split.
  - intros (j & y & [= -> ->] & Hl). done.
  - intros Hl. by exists i, x.
Qed.

Lemma build_edges_elem ct a b w :
  (a, b, w) ∈ build_edges ct ↔
  ∃ i j sa sb, ct !! i = Some (a, sa) ∧ ct !! j = Some (b, sb) ∧
               i ≠ j ∧ sa ∩ sb ≠ ∅ ∧ w = size (sa ∩ sb).
Proof.
  unfold build_edges. rewrite list_elem_of_bind. split.
  - intros ([i [c1 o1]] & Hin & Hi). apply elem_of_enumerate in Hi.
    apply list_elem_of_bind in Hin as ([j [c2 i2]] & Hin & Hj).
    apply elem_of_enumerate in Hj.
    destruct (decide (i ≠ j)) as [Hij|]; [|by apply elem_of_nil in Hin].
    destruct (decide (o1 ∩ i2 ≠ ∅)) as [Hne|]; [|by apply elem_of_nil in Hin].
    apply list_elem_of_singleton in Hin as [= -> -> ->].
    by exists i, j, o1, i2.
  - intros (i & j & sa & sb & Hi & Hj & Hij & Hne & ->).
    exists (i, (a, sa)). split; [|by apply elem_of_enumerate].
    apply list_elem_of_bind. exists (j, (b, sb)).
    split; [|by apply elem_of_enumerate].
    rewrite !decide_True by done. by apply list_elem_of_singleton.
Qed.

Lemma add_weighted_edges_from_snoc edges e G :
  add_weighted_edges_from (edges ++ [e]) G =
  <[(e.1.1, e.1.2) := e.2]> (add_weighted_edges_from edges G).
Proof. unfold add_weighted_edges_from. by rewrite foldl_app. Qed.

(** With at most one weight per ordered pair in the edge list, the graph
    holds exactly the listed edges. *)
Lemma add_weighted_edges_from_lookup edges a b w :
  (∀ u v w1 w2, (u, v, w1) ∈ edges → (u, v, w2) ∈ edges → w1 = w2) →
  add_weighted_edges_from edges ∅ !! (a, b) = Some w ↔ (a, b, w) ∈ edges.
Proof.
  induction edges as [|[[u v] x] edges IH] using rev_ind; intros Hfun.
  - unfold add_weighted_edges_from; simpl. rewrite lookup_empty.
    split; [done | by intros ?%elem_of_nil].
  - rewrite add_weighted_edges_from_snoc; simpl.
    assert (∀ u v w1 w2, (u, v, w1) ∈ edges → (u, v, w2) ∈ edges → w1 = w2) as Hfun'.
    { intros ???? H1 H2. eapply Hfun; apply elem_of_app; left; eauto. }
    specialize (IH Hfun').
    destruct (decide ((u, v) = (a, b))) as [[= -> ->]|Hne].
    + rewrite lookup_insert_eq. split.
      * intros [= ->]. apply elem_of_app; right. by apply list_elem_of_singleton.
      * intros Hin. f_equal. eapply Hfun; [|exact Hin].
        apply elem_of_app; right. by apply list_elem_of_singleton.
    + rewrite lookup_insert_ne by done. rewrite IH, elem_of_app.
      split; [by left |]. intros [?|Hin]; [done |].
      apply list_elem_of_singleton in Hin. congruence.
Qed.

Lemma dict_key_index (ct : list (string * gset string)) i j a b sa sb :
  NoDup ct.*1 → ct !! i = Some (a, sa) → ct !! j = Some (b, sb) →
  (i = j ↔ a = b).
Proof.
  intros Hnd Hi Hj. split.
  - intros ->. congruence.
  - intros ->. eapply NoDup_lookup; [exact Hnd | |].
    + rewrite list_lookup_fmap, Hi. done.
    + rewrite list_lookup_fmap, Hj. done.
Qed.

(** What the code builds: A→B is an edge exactly when A and B are distinct
    and share a touched token, whichever side of a swap the token was on. *)
Theorem token_flow_graph_edge logs a b w :
  token_flow_graph logs !! (a, b) = Some w ↔
  a ≠ b ∧ touched logs a ∩ touched logs b ≠ ∅ ∧
  w = size (touched logs a ∩ touched logs b).
Proof.
  pose proof (contract_tokens_NoDup logs) as Hnd.
  assert (∀ a b w, (a, b, w) ∈ build_edges (contract_tokens logs) ↔
            a ≠ b ∧ touched logs a ∩ touched logs b ≠ ∅ ∧
            w = size (touched logs a ∩ touched logs b)) as Hedges.
  { clear a b w. intros a b w. rewrite build_edges_elem. split.
    - intros (i & j & sa & sb & Hi & Hj & Hij & Hne & ->).
      pose proof (dict_key_index _ _ _ _ _ _ _ Hnd Hi Hj) as Hkey.
      apply list_elem_of_lookup_2, contract_tokens_elem in Hi as [_ ->].
      apply list_elem_of_lookup_2, contract_tokens_elem in Hj as [_ ->].
      split_and!; [tauto | done | done].
    - intros (Hab & Hne & ->).
      assert (a ∈ contract_address <$> logs) as Ha.
      { destruct (decide (a ∈ contract_address <$> logs)) as [|Hn]; [done |].
        rewrite (touched_no_rows _ _ Hn) in Hne. set_solver. }
      assert (b ∈ contract_address <$> logs) as Hb.
      { destruct (decide (b ∈ contract_address <$> logs)) as [|Hn]; [done |].
        rewrite (touched_no_rows _ _ Hn) in Hne. set_solver. }
      assert ((a, touched logs a) ∈ contract_tokens logs) as Hia
        by by apply contract_tokens_elem.
      assert ((b, touched logs b) ∈ contract_tokens logs) as Hjb
        by by apply contract_tokens_elem.
      apply list_elem_of_lookup_1 in Hia as [i Hi].
      apply list_elem_of_lookup_1 in Hjb as [j Hj].
      exists i, j, (touched logs a), (touched logs b). split_and!; try done.
      rewrite (dict_key_index _ _ _ _ _ _ _ Hnd Hi Hj). done. }
  unfold token_flow_graph. rewrite add_weighted_edges_from_lookup.
  - apply Hedges.
  - intros u v w1 w2 H1%Hedges H2%Hedges. naive_solver.
Qed.

(** No contract is ever connected to itself. *)
Lemma token_flow_graph_no_self_loop logs a :
  token_flow_graph logs !! (a, a) = None.
Proof.
  destruct (token_flow_graph logs !! (a, a)) as [w|] eqn:E; [|done].
  apply token_flow_graph_edge in E. naive_solver.
Qed.

(** C1, evaluated on the two-row batch [c1_logs]: contract A outputs only
    Y and contract B inputs only Z, so the tokens A outputs and the tokens
    B inputs do not intersect; the graph built by
    calculate_contract_centrality nevertheless has the edge A→B, with
    weight 1, because the shared token X was an input of A and an output
    of B. *)
Theorem C1_edge_without_output_input_overlap :
  spec_outputs c1_logs "A" ∩ spec_inputs c1_logs "B" = ∅ ∧
  token_flow_graph c1_logs !! ("A", "B") = Some 1%nat.
Proof.
  split.
  - apply (bool_decide_unpack _). vm_compute. exact I.
  - vm_compute. reflexivity.
Qed.

(** ** The centrality fallbacks *)

Lemma dom_zero_centrality G : dom (zero_centrality G) = G_nodes G.
Proof. apply dom_gset_to_gmap. Qed.

Lemma dom_nx_in_degree_centrality G : dom (nx_in_degree_centrality G) = G_nodes G.
Proof.
  unfold nx_in_degree_centrality. case_decide; [apply dom_gset_to_gmap |].
  apply set_eq. intros n. rewrite elem_of_dom. split.
  - intros [q Hq]. apply lookup_set_to_map in Hq as (y & Hy & [= -> _]); [done |].
    intros ?? _ _ ?. done.
  - intros Hn. eexists. apply lookup_set_to_map; [by intros ?? _ _ ? |].
    exists n. split; [done | reflexivity].
Qed.

(** The body of calculate_contract_centrality, one case per outcome of the
    four networkx calls. *)
Lemma calculate_contract_centrality_eq
    (nx_b nx_c nx_p nx_e : gmap (string * string) nat → result (gmap string Q))
    (logs : list LogEvent) :
  let G := token_flow_graph logs in
  calculate_contract_centrality nx_b nx_c nx_p nx_e logs =
  Ok (match nx_b G with Ok d => d | Raise => zero_centrality G end,
      match nx_c G with Ok d => d | Raise => zero_centrality G end,
      spec_three_tier G (nx_p G) (Some (nx_e G)),
      G).
Proof.
  intros G. unfold calculate_contract_centrality, spec_three_tier. fold G.
  destruct (nx_b G), (nx_c G), (nx_p G), (nx_e G); reflexivity.
Qed.

(** C2 (as the code has it): calculate_contract_centrality never raises.
    Betweenness and closeness are the exact networkx result, or 0 on every
    node of the graph when the exact algorithm fails; only eigenvector
    centrality has the three tiers power iteration, the numpy eigen-solve,
    in-degree centrality. *)
Theorem C2_fallback_tiers
    (nx_b nx_c nx_p nx_e : gmap (string * string) nat → result (gmap string Q))
    (logs : list LogEvent) :
  let G := token_flow_graph logs in
  ∃ b c e,
    calculate_contract_centrality nx_b nx_c nx_p nx_e logs = Ok (b, c, e, G) ∧
    b = try_value (nx_b G) (zero_centrality G) ∧
    c = try_value (nx_c G) (zero_centrality G) ∧
    e = try_value (nx_p G)
          (try_value (nx_e G) (nx_in_degree_centrality G)) ∧
    (∀ n, n ∈ G_nodes G → nx_b G = Raise → b !! n = Some 0%Q) ∧
    (∀ n, n ∈ G_nodes G → nx_c G = Raise → c !! n = Some 0%Q).
Proof.
  intros G. rewrite calculate_contract_centrality_eq. fold G.
  eexists _, _, _. split; [reflexivity |].
  unfold spec_three_tier, try_value. split_and!.
  - by destruct (nx_b G).
  - by destruct (nx_c G).
  - by destruct (nx_p G), (nx_e G).
  - intros n Hn ->. by apply lookup_gset_to_gmap_Some.
  - intros n Hn ->. by apply lookup_gset_to_gmap_Some.
Qed.

(** C2 fails as stated for betweenness (and closeness): when the exact
    algorithm raises on the graph of [c1_logs], the value returned for node
    A is 0, while in-degree centrality gives A the value 1. *)
Lemma C2_betweenness_fallback_is_not_in_degree :
  let G := token_flow_graph c1_logs in
  ∃ b c e,
    calculate_contract_centrality failing_centrality failing_centrality
      failing_centrality failing_centrality c1_logs = Ok (b, c, e, G) ∧
    b !! "A" = Some 0%Q ∧ c !! "A" = Some 0%Q ∧
    spec_three_tier G (failing_centrality G) None !! "A" = Some 1%Q ∧
    b ≠ spec_three_tier G (failing_centrality G) None.
Proof.
  intros G. eexists _, _, _. split; [reflexivity |].
  assert (zero_centrality G !! "A" = Some 0%Q) as H0 by (vm_compute; reflexivity).
  assert (spec_three_tier G (failing_centrality G) None !! "A" = Some 1%Q) as H1
    by (vm_compute; reflexivity).
  split_and!; done.
Qed.

(** ** Centrality of contracts outside the graph *)

Lemma map_fillna_absent (d : gmap string Q) c : c ∉ dom d → map_fillna d c = 0%Q.
Proof. intros Hc. apply not_elem_of_dom in Hc. unfold map_fillna. by rewrite Hc. Qed.

Lemma features_from_logs_df_contract logs row :
  row ∈ features_from_logs_df logs → contract row ∈ contract_address <$> logs.
Proof.
  unfold features_from_logs_df, group_keys.
  intros (c & -> & Hc)%list_elem_of_fmap.
  rewrite merge_sort_Permutation, elem_of_remove_dups in Hc. exact Hc.
Qed.

(** The nodes of the token-flow graph are the contracts that share a token
    with another contract. *)
Lemma G_nodes_token_flow_graph logs a :
  a ∈ G_nodes (token_flow_graph logs) ↔
  ∃ b, a ≠ b ∧ touched logs a ∩ touched logs b ≠ ∅.
Proof.
  unfold G_nodes. rewrite elem_of_union, !elem_of_map. split.
  - intros [([u v] & -> & Huv)|([u v] & -> & Huv)];
      apply elem_of_dom in Huv as [w Hw];
      apply token_flow_graph_edge in Hw as (Hne & Hov & _); simpl.
    + by exists v.
    + exists u. split; [done |]. by rewrite (comm_L (∩)).
  - intros (b & Hne & Hov). left. exists (a, b). split; [done |].
    apply elem_of_dom. eexists. apply token_flow_graph_edge. done.
Qed.

(** C8: a contract of the feature table that is not a node of the
    token-flow graph gets 0 for betweenness, closeness and eigenvector
    centrality, whichever tier produced each dictionary, provided the
    networkx algorithms return dictionaries keyed by nodes of the graph. *)
Theorem C8_absent_node_centrality_zero
    (nx_b nx_c nx_p nx_e : gmap (string * string) nat → result (gmap string Q))
    (Hb : ∀ G d, nx_b G = Ok d → dom d ⊆ G_nodes G)
    (Hc : ∀ G d, nx_c G = Ok d → dom d ⊆ G_nodes G)
    (Hp : ∀ G d, nx_p G = Ok d → dom d ⊆ G_nodes G)
    (He : ∀ G d, nx_e G = Ok d → dom d ⊆ G_nodes G)
    (logs : list LogEvent) :
  ∃ features,
    engineer_features nx_b nx_c nx_p nx_e logs = Ok features ∧
    contract ∘ base <$> features = contract <$> features_from_logs_df logs ∧
    ∀ row, row ∈ features →
      contract (base row) ∉ G_nodes (token_flow_graph logs) →
      betweenness_centrality row = 0%Q ∧
      closeness_centrality row = 0%Q ∧
      eigenvector_centrality row = 0%Q.
Proof.
  unfold engineer_features. rewrite calculate_contract_centrality_eq. cbn [and_then].
  set (G := token_flow_graph logs).
  eexists. split; [reflexivity |]. split.
  { rewrite <- list_fmap_compose. by apply list_fmap_ext. }
  intros row (r & -> & _)%list_elem_of_fmap Hnode. cbn.
  split_and!; apply map_fillna_absent; intros Hin; apply Hnode.
  - destruct (nx_b G) as [d|] eqn:E; [by eapply Hb |].
    by rewrite dom_zero_centrality in Hin.
  - destruct (nx_c G) as [d|] eqn:E; [by eapply Hc |].
    by rewrite dom_zero_centrality in Hin.
  - unfold spec_three_tier in Hin.
    destruct (nx_p G) as [d|] eqn:E; [by eapply Hp |].
    destruct (nx_e G) as [d|] eqn:E'; [by eapply He |].
    by rewrite dom_nx_in_degree_centrality in Hin.
Qed.

Lemma half_centrality_keys G d : half_centrality G = Ok d → dom d ⊆ G_nodes G.
Proof. intros [= <-]. by rewrite dom_gset_to_gmap. Qed.

Lemma failing_centrality_keys G d : failing_centrality G = Ok d → dom d ⊆ G_nodes G.
Proof. intros [=]. Qed.

Lemma C8_absent_node_centrality_zero_witness :
  ∃ features,
    engineer_features half_centrality half_centrality failing_centrality
      failing_centrality c8_logs = Ok features ∧
    contract ∘ base <$> features = contract <$> features_from_logs_df c8_logs ∧
    ∀ row, row ∈ features →
      contract (base row) ∉ G_nodes (token_flow_graph c8_logs) →
      betweenness_centrality row = 0%Q ∧
      closeness_centrality row = 0%Q ∧
      eigenvector_centrality row = 0%Q.
Proof.
  apply (C8_absent_node_centrality_zero half_centrality half_centrality
           failing_centrality failing_centrality
           half_centrality_keys half_centrality_keys
           failing_centrality_keys failing_centrality_keys c8_logs).
Defined.

(** ** Quantile labels *)

Lemma Qle_transitive : Transitive Qle.
Proof. intros x y z. apply Qle_trans. Qed.

Lemma Qle_total : Total Qle.
Proof.
  intros x y. destruct (Qlt_le_dec y x) as [H|H]; [right|left]; [|done].
  by apply Qlt_le_weak.
Qed.

Lemma sorted_values_StronglySorted (values : list Q) :
  StronglySorted Qle (merge_sort Qle values).
Proof.
  apply (@StronglySorted_merge_sort _ Qle _ Qle_transitive Qle_total).
Qed.

(** In a sorted column every value from position [i] on is at least the
    value at position [i]. *)
Lemma sorted_suffix_ge (v : list Q) i a :
  StronglySorted Qle v → v !! i = Some a → Forall (Qle a) (drop i v).
Proof.
  intros Hs Hi. rewrite <- (take_drop i v) in Hs.
  apply StronglySorted_app_1_r in Hs.
  rewrite (drop_S _ _ _ Hi) in Hs |- *.
  apply StronglySorted_cons in Hs as [Hall _].
  constructor; [apply Qle_refl | done].
Qed.

Lemma length_filter_Forall {A} (P : A → Prop) `{∀ x, Decision (P x)} (l : list A) :
  Forall P l → length (filter P l) = length l.
Proof.
  induction 1 as [|x l Hx _ IH]; [done |].
  rewrite filter_cons, decide_True by done. simpl. by rewrite IH.
Qed.

Lemma count_suffix {A} (P : A → Prop) `{∀ x, Decision (P x)} (l : list A) i :
  Forall P (drop i l) → (length l - i ≤ length (filter P l))%nat.
Proof.
  intros Hall. rewrite <- (take_drop i l) at 2. rewrite filter_app, length_app.
  rewrite (length_filter_Forall P (drop i l) Hall), length_drop. lia.
Qed.

(** The values a threshold labels 1, counted on the sorted column. *)
Lemma count_ge_sorted (values : list Q) (t : Q) i b :
  merge_sort Qle values !! i = Some b → (t <= b)%Q →
  (length values - i ≤ length (filter (λ x, (t <= x)%Q) values))%nat.
Proof.
  intros Hi Hb.
  pose proof (merge_sort_Permutation Qle values) as Hp.
  rewrite <- Hp at 2. rewrite <- (Permutation_length Hp).
  apply count_suffix.
  eapply Forall_impl; [apply (sorted_suffix_ge _ _ _ (sorted_values_StronglySorted values) Hi) |].
  intros x Hx. simpl. by eapply Qle_trans.
Qed.

Lemma nth_lookup_Some (v : list Q) (i : nat) :
  (i < length v)%nat → v !! i = Some (nth i v 0%Q).
Proof.
  intros Hi. destruct (lookup_lt_is_Some_2 v i Hi) as [x Hx].
  rewrite Hx. f_equal. symmetry. by apply nth_lookup_Some.
Qed.

Lemma sorted_nth_le (values : list Q) (i j : nat) :
  (i ≤ j)%nat → (j < length values)%nat →
  (nth i (merge_sort Qle values) 0 <= nth j (merge_sort Qle values) 0)%Q.
Proof.
  intros Hij Hj. set (v := merge_sort Qle values).
  assert (length v = length values) as Hlen
    by apply Permutation_length, merge_sort_Permutation.
  assert (v !! i = Some (nth i v 0%Q)) as Hi by (apply nth_lookup_Some; lia).
  assert (v !! j = Some (nth j v 0%Q)) as Hj' by (apply nth_lookup_Some; lia).
  pose proof (sorted_suffix_ge v i _ (sorted_values_StronglySorted values) Hi) as Hall.
  rewrite Forall_forall in Hall. apply Hall.
  apply list_elem_of_lookup. exists (j - i)%nat.
  rewrite lookup_drop. replace (i + (j - i))%nat with j by lia. done.
Qed.

(** At least one value in ten is at or above the 0.9 quantile. *)
Lemma quantile_09_count (values : list Q) t :
  pd_quantile (9 # 10) values = Some t →
  (length values ≤ 10 * length (filter (λ x, (t <= x)%Q) values))%nat.
Proof.
  unfold pd_quantile. destruct values as [|x0 values']; [done |].
  set (values := x0 :: values'). set (v := merge_sort Qle values).
  set (n := Z.of_nat (length values)).
  assert (1 ≤ n) as Hn by (unfold n, values; simpl; lia).
  change (Qfloor (inject_Z (n - 1) * (9 # 10))) with ((n - 1) * 9 / 10).
  set (lo := (n - 1) * 9 / 10).
  assert (0 ≤ lo ∧ 10 * lo ≤ 9 * (n - 1) < 10 * lo + 10) as (Hlo0 & Hlo1 & Hlo2).
  { unfold lo. pose proof (Z.div_mod ((n - 1) * 9) 10 ltac:(lia)).
    pose proof (Z.mod_pos_bound ((n - 1) * 9) 10 ltac:(lia)).
    split; [apply Z.div_pos; lia | lia]. }
  set (a := nth (Z.to_nat lo) v 0%Q).
  set (g := (inject_Z (n - 1) * (9 # 10) - inject_Z lo)%Q).
  intros [= Ht].
  assert (length v = length values) as Hlen
    by apply Permutation_length, merge_sort_Permutation.
  assert (∀ i b, v !! i = Some b → (t <= b)%Q →
            (length values - i ≤ length (filter (λ x, (t <= x)%Q) values))%nat)
    as Hcount by (intros i b; apply count_ge_sorted).
  assert (0 <= g <= 1)%Q as Hg.
  { assert (inject_Z (10 * lo) <= inject_Z (9 * (n - 1)))%Q as Hq1
      by (rewrite <- Zle_Qle; lia).
    assert (inject_Z (9 * (n - 1)) <= inject_Z (10 * lo + 10))%Q as Hq2
      by (rewrite <- Zle_Qle; lia).
    rewrite inject_Z_plus, !inject_Z_mult in *.
    change (inject_Z 10) with 10%Q in *. change (inject_Z 9) with 9%Q in *.
    unfold g. split; lra. }
  destruct (decide (10 * lo = 9 * (n - 1))) as [Hexact|Hfrac].
  - (* the position is an integer: the threshold is the value there *)
    assert (g == 0)%Q as Hg0.
    { assert (inject_Z (10 * lo) == inject_Z (9 * (n - 1)))%Q as Hq by (by rewrite Hexact).
      rewrite !inject_Z_mult in Hq. change (inject_Z 10) with 10%Q in Hq.
      change (inject_Z 9) with 9%Q in Hq. unfold g. lra. }
    assert (length values - Z.to_nat lo ≤ length (filter (λ x, (t <= x)%Q) values))%nat
      as Hc; [|lia].
    apply (Hcount _ a); [apply nth_lookup_Some; lia |].
    rewrite <- Ht, Hg0. lra.
  - (* otherwise it lies strictly between two positions *)
    assert (Z.min (lo + 1) (n - 1) = lo + 1) as Hmin by lia.
    rewrite Hmin in Ht.
    set (b := nth (Z.to_nat (lo + 1)) v 0%Q) in *.
    assert (a <= b)%Q as Hab by (apply sorted_nth_le; lia).
    assert (length values - Z.to_nat (lo + 1) ≤
            length (filter (λ x, (t <= x)%Q) values))%nat as Hc; [|lia].
    apply (Hcount _ b); [apply nth_lookup_Some; lia |].
    rewrite <- Ht. nra.
Qed.

Lemma length_filter_fmap {A B} (f : A → B) (P : B → Prop) (Q' : A → Prop)
    `{∀ x, Decision (P x)} `{∀ x, Decision (Q' x)} (l : list A) :
  (∀ x, P (f x) ↔ Q' x) →
  length (filter P (f <$> l)) = length (filter Q' l).
Proof.
  intros HPQ. induction l as [|x l IH]; [done |].
  rewrite fmap_cons, !filter_cons.
  destruct (decide (P (f x))) as [Hp|Hp], (decide (Q' x)) as [Hq|Hq]; simpl;
    rewrite ?IH; try done; exfalso; naive_solver.
Qed.

Lemma ge_label_one x thr :
  ge_label x thr = 1 ↔ ∃ t, thr = Some t ∧ (t <= x)%Q.
Proof.
  unfold ge_label. destruct thr as [t|]; [|naive_solver].
  destruct (decide (t <= x)%Q); naive_solver.
Qed.

(** C4 (as the code has it): under absolute-activity labelling at least
    one contract in ten of the forward window is labelled 1, ties or not;
    the fraction labelled 1 is bounded below by 1 - 0.90, not above. *)
Theorem C4_positive_fraction_at_least_tenth (future_df : list LogEvent) :
  let labels := absolute_activity_labels future_df in
  labels.*1 = group_keys future_df ∧
  (∀ r, r ∈ labels → r.2 = 0 ∨ r.2 = 1) ∧
  (length labels ≤ 10 * count_positive labels)%nat.
Proof.
  unfold absolute_activity_labels, count_positive.
  set (liq := groupby_count future_df).
  set (thr := pd_quantile (9 # 10) (inject_Z <$> liq.*2)).
  cbn zeta. split_and!.
  - rewrite <- list_fmap_compose. unfold liq, groupby_count.
    rewrite <- list_fmap_compose. apply list_fmap_id.
  - intros r (r0 & -> & _)%list_elem_of_fmap. cbn.
    unfold ge_label. destruct thr; [case_decide|]; auto.
  - rewrite length_fmap.
    destruct thr as [t|] eqn:Hthr.
    + pose proof (quantile_09_count _ _ Hthr) as Hq.
      rewrite !length_fmap in Hq.
      rewrite (length_filter_fmap _ _ (λ r, (t <= inject_Z r.2)%Q)).
      * rewrite <- list_fmap_compose in Hq.
        rewrite (length_filter_fmap _ _ (λ r : string * Z, (t <= inject_Z r.2)%Q)) in Hq;
          [done | done].
      * intros r. cbn [fst snd]. rewrite ge_label_one. naive_solver.
    + unfold thr, pd_quantile in Hthr.
      destruct liq as [|r liq']; [simpl; lia | done].
Qed.

(** C4 fails as stated: in the forward window [c4_future] contract A has one
    transaction and contract B two; the 0.9 quantile is 1.9, B alone is
    labelled 1, and the fraction labelled 1 is 1/2, far above 1 - 0.90. *)
Lemma C4_fraction_exceeds_tenth :
  let labels := absolute_activity_labels c4_future in
  labels = [("A", 0); ("B", 1)] ∧
  ¬ (inject_Z (Z.of_nat (count_positive labels)) / inject_Z (Z.of_nat (length labels))
       <= (1 - (9 # 10)) + (1 # 100))%Q.
Proof.
  assert (absolute_activity_labels c4_future = [("A", 0); ("B", 1)]) as H
    by (vm_compute; reflexivity).
  cbn zeta. rewrite H. split; [done |].
  vm_compute. intros Hle. by apply Hle.
Qed.

(** ** Growth-rate labels *)

Lemma groupby_count_nonneg logs r : r ∈ groupby_count logs → 0 ≤ r.2.
Proof.
  unfold groupby_count. intros (c & -> & _)%list_elem_of_fmap. simpl. lia.
Qed.

Lemma pd_quantile_is_Some q (values : list Q) :
  values ≠ [] → is_Some (pd_quantile q values).
Proof. destruct values; [done |]. intros _. unfold pd_quantile. eauto. Qed.

(** C9: in growth-rate labelling every row's denominator
    [volume_1d_current + 1] is at least 1, hence never zero; the growth is
    [(future - current) / (current + 1) * 100]; and the label is 1 exactly
    when the growth is at least the 0.8 quantile of the growth column. *)
Theorem C9_growth_label_denominator_positive
    (logs_1d_current_df logs_historical_df : list LogEvent) (row : GrowthRow) :
  let table := volume_growth logs_1d_current_df logs_historical_df in
  row ∈ table →
  (1 <= inject_Z (volume_1d_current row) + 1)%Q ∧
  ¬ (inject_Z (volume_1d_current row) + 1 == 0)%Q ∧
  volume_growth_pct row =
    ((inject_Z (volume_future row) - inject_Z (volume_1d_current row)) /
     (inject_Z (volume_1d_current row) + 1) * 100)%Q ∧
  ∃ threshold,
    pd_quantile (8 # 10) (volume_growth_pct <$> table) = Some threshold ∧
    (g_label row = 1 ↔ (threshold <= volume_growth_pct row)%Q) ∧
    (g_label row = 0 ∨ g_label row = 1).
Proof.
  unfold volume_growth. cbn zeta.
  set (merged := merge_left_fillna _ _).
  set (pct := (λ m : string * Z * Z, growth_pct m.1.2 m.2) <$> merged).
  intros (m & -> & Hm)%list_elem_of_fmap. cbn.
  assert (0 ≤ m.1.2) as Hcur.
  { unfold merged, merge_left_fillna in Hm.
    apply list_elem_of_fmap in Hm as (r & -> & Hr). cbn.
    by apply groupby_count_nonneg in Hr. }
  assert (0 <= inject_Z m.1.2)%Q as HcurQ.
  { change 0%Q with (inject_Z 0). by rewrite <- Zle_Qle. }
  split_and!; [lra | lra | done |].
  rewrite <- list_fmap_compose.
  change (volume_growth_pct ∘ _) with (λ m : string * Z * Z, growth_pct m.1.2 m.2).
  fold pct.
  destruct (pd_quantile_is_Some (8 # 10) pct) as [t Ht].
  { unfold pct. destruct merged; [by apply elem_of_nil in Hm | done]. }
  exists t. rewrite Ht. split_and!; [done | |].
  - rewrite ge_label_one. naive_solver.
  - unfold ge_label. case_decide; auto.
Qed.

Lemma C9_growth_label_denominator_positive_witness :
  let row := mkGrowth "A" 1 1 (0 # 2) 1 in
  let table := volume_growth c4_future c8_logs in
  row ∈ table ∧
  (1 <= inject_Z (volume_1d_current row) + 1)%Q ∧
  ¬ (inject_Z (volume_1d_current row) + 1 == 0)%Q ∧
  volume_growth_pct row =
    ((inject_Z (volume_future row) - inject_Z (volume_1d_current row)) /
     (inject_Z (volume_1d_current row) + 1) * 100)%Q ∧
  ∃ threshold,
    pd_quantile (8 # 10) (volume_growth_pct <$> table) = Some threshold ∧
    (g_label row = 1 ↔ (threshold <= volume_growth_pct row)%Q) ∧
    (g_label row = 0 ∨ g_label row = 1).
Proof.
  assert (mkGrowth "A" 1 1 (0 # 2) 1 ∈ volume_growth c4_future c8_logs) as Hin.
  { vm_compute. apply list_elem_of_here. }
  split; [exact Hin |].
  exact (C9_growth_label_denominator_positive c4_future c8_logs _ Hin).
Defined.

(** ** Precision@K *)

Lemma precision_at_k_bounds top truth :
  (0 <= precision_at_k top truth <= 1)%Q.
Proof.
  unfold precision_at_k.
  set (hits := length (filter (λ c, c ∈ truth) top)).
  assert (hits ≤ length top)%nat as Hh by apply length_filter.
  set (d := Z.max 1 (Z.of_nat (length top))).
  assert (0 < inject_Z d)%Q as Hd.
  { change 0%Q with (inject_Z 0). rewrite <- Zlt_Qlt. lia. }
  assert (0 <= inject_Z (Z.of_nat hits))%Q as H0.
  { change 0%Q with (inject_Z 0). rewrite <- Zle_Qle. lia. }
  assert (inject_Z (Z.of_nat hits) <= inject_Z d)%Q as H1.
  { rewrite <- Zle_Qle. lia. }
  split.
  - apply Qle_shift_div_l; [done |]. lra.
  - apply Qle_shift_div_r; [done |]. lra.
Qed.

Lemma precision_at_k_no_hits top truth :
  (∀ c, c ∈ top → c ∉ truth) → (precision_at_k top truth == 0)%Q.
Proof.
  intros Hno. unfold precision_at_k.
  assert (filter (λ c, c ∈ truth) top = []) as ->.
  { induction top as [|c top IH]; [done |].
    rewrite filter_cons, decide_False by (apply Hno; left).
    apply IH. intros c' Hc'. apply Hno. by right. }
  cbn [length]. change (inject_Z (Z.of_nat 0)) with 0%Q.
  unfold Qdiv. apply Qmult_0_l.
Qed.

Lemma df_head_zero {A} (l : list A) : df_head 0 l = [].
Proof. unfold df_head. by rewrite decide_True by lia. Qed.

(** The value [backtest_segment] returns, when it returns one. *)
Lemma backtest_segment_Some predict_proba df blocks_per_day top_k t p :
  backtest_segment predict_proba df blocks_per_day top_k t = Some p →
  ∃ scored : list (BaseRow * Q),
    p = precision_at_k
          ((contract ∘ fst) <$> df_head top_k (sort_by_prob scored))
          (list_to_set (fst <$> filter (λ r, r.2 = 1) (day_labels df blocks_per_day t))) ∧
    training_parts df blocks_per_day t ≠ [] ∧
    day_features df blocks_per_day t ≠ [] ∧
    day_labels df blocks_per_day t ≠ [].
Proof.
  unfold backtest_segment.
  destruct (training_parts df blocks_per_day t) as [|part parts]; [done |].
  destruct (day_features df blocks_per_day t) as [|f fs]; [done |].
  destruct (day_labels df blocks_per_day t) as [|l ls]; [done |].
  intros [= <-]. eexists. split; [reflexivity | done].
Qed.



(** ** Which segments the backtest scores *)

Lemma list_nonempty_elem {A} (l : list A) : l ≠ [] ↔ ∃ x, x ∈ l.
Proof.
  destruct l as [|x l]; split; try done.
  - intros [x Hx]. by apply elem_of_nil in Hx.
  - intros _. exists x. by left.
Qed.

Lemma training_parts_nonempty df blocks_per_day t :
  training_parts df blocks_per_day t ≠ [] ↔
  ∃ i, (i < t)%nat ∧ is_Some (training_part df blocks_per_day i).
Proof.
  unfold training_parts. rewrite list_nonempty_elem. split.
  - intros (part & (i & Hi & Hp)%list_elem_of_omap).
    apply elem_of_seq in Hi. exists i. split; [lia | by eexists].
  - intros (i & Hi & part & Hp). exists part. apply list_elem_of_omap.
    exists i. split; [apply elem_of_seq; lia | done].
Qed.

Lemma backtest_segment_is_Some predict_proba df blocks_per_day top_k t :
  is_Some (backtest_segment predict_proba df blocks_per_day top_k t) ↔
  training_parts df blocks_per_day t ≠ [] ∧
  day_features df blocks_per_day t ≠ [] ∧
  day_labels df blocks_per_day t ≠ [].
Proof.
  split.
  - intros [p Hp]. apply backtest_segment_Some in Hp as (_ & _ & ? & ? & ?). done.
  - intros (Ht & Hf & Hl). unfold backtest_segment.
    destruct (training_parts df blocks_per_day t); [done |].
    destruct (day_features df blocks_per_day t); [done |].
    destruct (day_labels df blocks_per_day t); [done |]. by eexists.
Qed.

Lemma backtest_results_elem predict_proba df blocks_per_day top_k t p :
  (t, p) ∈ backtest_results predict_proba df blocks_per_day top_k ↔
  (t < 4)%nat ∧ backtest_segment predict_proba df blocks_per_day top_k t = Some p.
Proof.
  unfold backtest_results. rewrite list_elem_of_omap. split.
  - intros (t' & Ht' & Hp). apply elem_of_seq in Ht'.
    destruct (backtest_segment _ _ _ _ t') as [p'|] eqn:E; [|done].
    injection Hp as -> ->. split; [lia | done].
  - intros [Ht Hp]. exists t. split; [apply elem_of_seq; lia |]. by rewrite Hp.
Qed.



(** ** Training data precedes validation data *)

Section WalkForwardFacts.
Context {TrainRow ValRow Model Perf : Type}.
Variable pull_training : Z → option (list TrainRow).
Variable pull_validation : Z → option (list ValRow).
Variable train_model_on_data : list TrainRow → Z → option Model.
Variable test_model_on_data : Model → list ValRow → Z → option Perf.
Variable current_dt : Z.
Variable validation_days : Z.

Local Abbreviation day_step :=
  (walk_forward_day pull_training pull_validation train_model_on_data
     test_model_on_data validation_days).
Local Abbreviation loop :=
  (walk_forward_loop pull_training pull_validation train_model_on_data
     test_model_on_data current_dt validation_days).

Lemma walk_forward_day_dates current_date day_number record :
  day_step current_date day_number = Some record →
  day record = day_number ∧
  training_date record = current_date ∧
  validation_date record = current_date + 86400 * validation_days.
Proof.
  unfold walk_forward_day.
  destruct (pull_training current_date) as [[|x xs]|]; [done | | done].
  destruct (train_model_on_data _ _); [|done].
  destruct (pull_validation _) as [[|y ys]|]; [done | | done].
  destruct (test_model_on_data _ _ _); [|done].
  by intros [= <-].
Qed.

Lemma walk_forward_loop_records (P : DailyPerformance Perf → Prop) :
  (∀ current_date day_number record,
     day_step current_date day_number = Some record → P record) →
  ∀ fuel current_date day_number acc,
    Forall P acc → Forall P (loop fuel current_date day_number acc).2.
Proof.
  intros Hstep fuel. induction fuel as [|fuel IH]; intros cd dn acc Hacc; simpl.
  - by case_decide.
  - case_decide; [|done]. apply IH.
    destruct (day_step cd dn) as [record|] eqn:E; [|done].
    apply Forall_app. split; [done |]. constructor; [|done]. by eapply Hstep.
Qed.

Lemma walk_forward_loop_terminates fuel current_date day_number acc :
  1 ≤ validation_days →
  current_dt - current_date ≤ Z.of_nat fuel →
  (loop fuel current_date day_number acc).1 = true.
Proof.
  intros Hv. revert current_date day_number acc.
  induction fuel as [|fuel IH]; intros cd dn acc Hfuel; simpl.
  - case_decide; [lia | done].
  - case_decide; [|done]. apply IH. lia.
Qed.
End WalkForwardFacts.

Lemma training_parts_earlier df blocks_per_day t part :
  part ∈ training_parts df blocks_per_day t →
  ∃ i, (i < t)%nat ∧ training_part df blocks_per_day i = Some part.
Proof.
  unfold training_parts. intros (i & Hi & Hp)%list_elem_of_omap.
  apply elem_of_seq in Hi. exists i. split; [lia | done].
Qed.

Lemma training_part_rows df blocks_per_day i part :
  training_part df blocks_per_day i = Some part →
  part = merge_inner (day_features df blocks_per_day i) (day_labels df blocks_per_day i).
Proof.
  unfold training_part.
  destruct (day_features df blocks_per_day i) as [|f fs]; [done |].
  destruct (day_labels df blocks_per_day i) as [|l ls]; [done |].
  destruct (merge_inner _ _); [done |]. by intros [= <-].
Qed.




(** ** The allow-list filter *)

Lemma check_pool_allowed rpc_symbol logs row pool :
  check_pool rpc_symbol logs row = Some pool →
  pool_contract pool = contract (base row.1) ∧
  ∀ token, token ∈ touched logs (pool_contract pool) →
           get_token_symbol rpc_symbol token ∈ ALLOWED_TOKENS.
Proof.
  unfold check_pool.
  destruct (rows_of logs (contract (base row.1))) as [|l ls]; [done |].
  case_decide; [|done].
  destruct (bool_decide (Forall _ _)) eqn:Hall; [|done].
  destruct (bool_decide (length _ = _)); [|done].
  intros [= <-]. cbn. split; [done |].
  apply bool_decide_eq_true in Hall. rewrite Forall_forall in Hall.
  intros token Htok. apply Hall. apply list_elem_of_fmap_2.
  by apply elem_of_elements.
Qed.

Lemma filter_pools_elem rpc_symbol logs top_k rows acc pool :
  pool ∈ filter_pools rpc_symbol logs top_k rows acc →
  pool ∈ acc ∨ ∃ row, row ∈ rows ∧ check_pool rpc_symbol logs row = Some pool.
Proof.
  revert acc. induction rows as [|row rest IH]; intros acc; simpl; [by left |].
  destruct (check_pool rpc_symbol logs row) as [p|] eqn:E.
  - assert (pool ∈ acc ++ [p] →
            pool ∈ acc ∨ ∃ r, r ∈ row :: rest ∧ check_pool rpc_symbol logs r = Some pool)
      as Hsnoc.
    { intros [Hin|Heq]%elem_of_app; [by left |].
      apply list_elem_of_singleton in Heq as ->.
      right. exists row. split; [by left | done]. }
    case_decide; [done |].
    intros [Hin|(r & Hr & Hc)]%IH; [by apply Hsnoc |].
    right. exists r. split; [by right | done].
  - intros [Hin|(r & Hr & Hc)]%IH; [by left |].
    right. exists r. split; [by right | done].
Qed.

Lemma filter_pools_all_allowed rpc_symbol logs top_k rows pool :
  pool ∈ filter_pools rpc_symbol logs top_k rows [] →
  ∀ token, token ∈ touched logs (pool_contract pool) →
           get_token_symbol rpc_symbol token ∈ ALLOWED_TOKENS.
Proof.
  intros [Hin|(row & _ & Hc)]%filter_pools_elem; [by apply elem_of_nil in Hin |].
  by apply check_pool_allowed in Hc as [_ Hc].
Qed.

(** C5: with the allow-list filter on, every contract kept by infer_top and
    by infer_top_multi_timeframe has all its observed tokens (inputs and
    outputs of all its rows) resolving to allowed symbols; a contract with
    one token outside the list is absent from the output, in particular one
    whose tokens resolve to USDC and UNKNOWN. *)
Theorem C5_filtered_pools_all_tokens_allowed
    (rpc_symbol : string → string) (logs_1d_df : list LogEvent) (top_k : Z)
    (scored : list (FeatureRow * Q)) (output : list Pool) :
  output = infer_top_filtered rpc_symbol logs_1d_df top_k scored ∨
  output = infer_top_multi_timeframe_filtered rpc_symbol logs_1d_df top_k scored →
  (∀ pool token,
     pool ∈ output → token ∈ touched logs_1d_df (pool_contract pool) →
     get_token_symbol rpc_symbol token ∈ ALLOWED_TOKENS) ∧
  (∀ c token,
     token ∈ touched logs_1d_df c →
     get_token_symbol rpc_symbol token ∉ ALLOWED_TOKENS →
     c ∉ pool_contract <$> output) ∧
  (∀ c usdc unknown,
     touched logs_1d_df c = {[usdc; unknown]} →
     get_token_symbol rpc_symbol usdc = "USDC" →
     get_token_symbol rpc_symbol unknown = "UNKNOWN" →
     c ∉ pool_contract <$> output).
Proof.
  intros Hout.
  assert (∀ pool token,
            pool ∈ output → token ∈ touched logs_1d_df (pool_contract pool) →
            get_token_symbol rpc_symbol token ∈ ALLOWED_TOKENS) as Hall.
  { intros pool token Hp. destruct Hout as [-> | ->];
      by eapply filter_pools_all_allowed. }
  assert (∀ c token,
            token ∈ touched logs_1d_df c →
            get_token_symbol rpc_symbol token ∉ ALLOWED_TOKENS →
            c ∉ pool_contract <$> output) as Hnot.
  { intros c token Htok Hbad (pool & -> & Hp)%list_elem_of_fmap.
    apply Hbad. by eapply Hall. }
  split_and!; [done | done |].
  intros c usdc unknown Htoks _ Hunk. apply (Hnot c unknown).
  - rewrite Htoks. set_solver.
  - rewrite Hunk. by vm_compute.
Qed.

Lemma C5_filtered_pools_all_tokens_allowed_witness :
  let output := infer_top_filtered c5_rpc c5_logs 20 c5_scored in
  pool_contract <$> output = ["R"] ∧
  "P" ∉ pool_contract <$> output.
Proof.
  cbn zeta. split; [by vm_compute |].
  apply (proj2 (proj2 (C5_filtered_pools_all_tokens_allowed c5_rpc c5_logs 20
                         c5_scored _ (or_introl eq_refl)))
           "P" "0xA0b86991c31D6832c4b0B9e26cB4171d43c4a9a4" "0xdead").
  - apply (bool_decide_unpack _). by vm_compute.
  - by vm_compute.
  - by vm_compute.
Defined.

(** ** The ensemble does not depend on the order of the timeframes *)

Lemma Forall2_Qeq_refl (l : list Q) : Forall2 Qeq l l.
Proof. induction l; constructor; [reflexivity | done]. Qed.

Lemma Forall2_Qeq_trans (l1 l2 l3 : list Q) :
  Forall2 Qeq l1 l2 → Forall2 Qeq l2 l3 → Forall2 Qeq l1 l3.
Proof.
  intros H12. revert l3. induction H12 as [|x y l1 l2 Hxy _ IH]; intros l3 H23.
  - by inversion H23.
  - inversion H23 as [|? z ? l3' Hyz H23']; subst.
    constructor; [by rewrite Hxy | by apply IH].
Qed.

Lemma scores_eq_refl a : scores_eq a a.
Proof. destruct a; constructor. apply Forall2_Qeq_refl. Qed.

Lemma scores_eq_trans a b c : scores_eq a b → scores_eq b c → scores_eq a c.
Proof.
  intros [l1 l2 H12|] Hbc; inversion Hbc; subst; constructor.
  by eapply Forall2_Qeq_trans.
Qed.

Lemma zip_with_Qplus_proper (a a' w : list Q) :
  Forall2 Qeq a a' → Forall2 Qeq (zip_with Qplus a w) (zip_with Qplus a' w).
Proof.
  intros Ha. revert w. induction Ha as [|x y a a' Hxy _ IH]; intros [|z w]; simpl;
    try constructor; [by rewrite Hxy | apply IH].
Qed.

Lemma zip_with_Qplus_comm (u v : list Q) :
  Forall2 Qeq (zip_with Qplus u v) (zip_with Qplus v u).
Proof.
  revert v. induction u as [|x u IH]; intros [|y v]; simpl; try constructor;
    [apply Qplus_comm | apply IH].
Qed.

Lemma zip_with_Qplus_swap (a u v : list Q) :
  Forall2 Qeq (zip_with Qplus (zip_with Qplus a u) v)
              (zip_with Qplus (zip_with Qplus a v) u).
Proof.
  revert u v. induction a as [|x a IH]; intros [|y u] [|z v]; simpl;
    try constructor; [ring | apply IH].
Qed.

Section EnsembleFacts.
Context {Model : Type}.
Variable s3_model : string → s3_get Model.
Variable s3_feature_list : string → s3_get (list string).
Variable model_accepts : Model → list string → bool.
Variable predict_proba : Model → list string → FeatureRow → Q.
Variable current_features : list FeatureRow.

Local Abbreviation step :=
  (ensemble_step s3_model s3_feature_list model_accepts predict_proba current_features).

Lemma ensemble_step_proper acc acc' timeframe :
  scores_eq acc acc' → scores_eq (step acc timeframe) (step acc' timeframe).
Proof.
  intros Hacc. unfold ensemble_step.
  destruct (weighted_probs _ _ _ _ _ timeframe) as [probs|]; [|done].
  destruct Hacc as [a a' Ha|]; constructor.
  - by apply zip_with_Qplus_proper.
  - apply Forall2_Qeq_refl.
Qed.

Lemma ensemble_step_swap acc x y :
  scores_eq (step (step acc x) y) (step (step acc y) x).
Proof.
  unfold ensemble_step.
  destruct (weighted_probs _ _ _ _ _ x) as [px|],
           (weighted_probs _ _ _ _ _ y) as [py|], acc as [a|];
    constructor; try apply Forall2_Qeq_refl.
  - apply zip_with_Qplus_swap.
  - apply zip_with_Qplus_comm.
Qed.

Lemma ensemble_foldl_proper timeframes acc acc' :
  scores_eq acc acc' →
  scores_eq (foldl step acc timeframes) (foldl step acc' timeframes).
Proof.
  revert acc acc'. induction timeframes as [|x l IH]; intros acc acc' Hacc; simpl;
    [done |]. apply IH. by apply ensemble_step_proper.
Qed.

Lemma ensemble_foldl_permutation timeframes timeframes' :
  timeframes ≡ₚ timeframes' →
  ∀ acc, scores_eq (foldl step acc timeframes) (foldl step acc timeframes').
Proof.
  induction 1 as [|x l l' _ IH|x y l|l1 l2 l3 _ IH1 _ IH2]; intros acc; simpl.
  - apply scores_eq_refl.
  - apply IH.
  - apply ensemble_foldl_proper, ensemble_step_swap.
  - eapply scores_eq_trans; [apply IH1 | apply IH2].
Qed.
End EnsembleFacts.

(** C10: for every feature table and every permutation of the list of
    timeframes, either no model loads in both orders or both orders give
    every contract the same combined score (as rationals). *)
Theorem C10_ensemble_order_independent {Model : Type}
    (s3_model : string → s3_get Model)
    (s3_feature_list : string → s3_get (list string))
    (model_accepts : Model → list string → bool)
    (predict_proba : Model → list string → FeatureRow → Q)
    (current_features : list FeatureRow) (timeframes timeframes' : list string) :
  timeframes ≡ₚ timeframes' →
  scores_eq
    (weighted_probabilities s3_model s3_feature_list model_accepts predict_proba
       current_features timeframes)
    (weighted_probabilities s3_model s3_feature_list model_accepts predict_proba
       current_features timeframes').
Proof.
  intros Hperm. unfold weighted_probabilities.
  by apply ensemble_foldl_permutation.
Qed.

Lemma C10_ensemble_order_independent_witness :
  ["1D"; "3D"; "1W"] ≡ₚ ["1W"; "1D"; "3D"] ∧
  scores_eq
    (weighted_probabilities c10_models c10_feature_lists c10_accepts c10_predict
       c10_features ["1D"; "3D"; "1W"])
    (weighted_probabilities c10_models c10_feature_lists c10_accepts c10_predict
       c10_features ["1W"; "1D"; "3D"]).
Proof.
  assert (["1D"; "3D"; "1W"] ≡ₚ ["1W"; "1D"; "3D"]) as Hperm.
  { symmetry. apply (Permutation_cons_append ["1D"; "3D"] "1W"). }
  split; [exact Hperm |].
  exact (C10_ensemble_order_independent c10_models c10_feature_lists c10_accepts
           c10_predict c10_features _ _ Hperm).
Defined.

(** * Further properties of the code *)

(** ** calculate_contract_centrality *)

(** X1: the graph is symmetric although it is built as a directed graph:
    B→A is an edge exactly when A→B is, with the same weight. *)
Theorem X1_token_flow_graph_symmetric (logs_df : list LogEvent) (a b : string) :
  token_flow_graph logs_df !! (b, a) = token_flow_graph logs_df !! (a, b).
Proof.
  apply option_eq. intros w. rewrite !token_flow_graph_edge.
  rewrite (comm_L (∩) (touched logs_df b)). naive_solver.
Qed.

(** X2: every edge joins two distinct contracts of the batch and has weight
    at least 1; a contract is a node exactly when it shares a token with
    another contract, so the graph of an empty batch has no node. *)
Theorem X2_token_flow_graph_edges_and_nodes (logs_df : list LogEvent) :
  (∀ a b w, token_flow_graph logs_df !! (a, b) = Some w →
     a ≠ b ∧ (1 ≤ w)%nat ∧
     a ∈ contract_address <$> logs_df ∧ b ∈ contract_address <$> logs_df) ∧
  (∀ a, a ∈ G_nodes (token_flow_graph logs_df) ↔
     ∃ b, a ≠ b ∧ touched logs_df a ∩ touched logs_df b ≠ ∅) ∧
  (logs_df = [] → G_nodes (token_flow_graph logs_df) = ∅).
Proof.
  split_and!.
  - intros a b w (Hne & Hov & ->)%token_flow_graph_edge. split_and!; [done | | |].
    + assert (size (touched logs_df a ∩ touched logs_df b) ≠ 0%nat) as Hs; [|lia].
      intros Hs. apply size_empty_iff in Hs. apply Hov. by apply leibniz_equiv.
    + destruct (decide (a ∈ contract_address <$> logs_df)) as [|Hn]; [done |].
      rewrite (touched_no_rows _ _ Hn) in Hov. set_solver.
    + destruct (decide (b ∈ contract_address <$> logs_df)) as [|Hn]; [done |].
      rewrite (touched_no_rows _ _ Hn) in Hov. set_solver.
  - apply G_nodes_token_flow_graph.
  - intros ->. by vm_compute.
Qed.

(** ** _features_from_logs_df *)

Lemma foldl_min_le (l : list Z) a :
  foldl Z.min a l ≤ a ∧ ∀ x, x ∈ l → foldl Z.min a l ≤ x.
Proof.
  revert a. induction l as [|y l IH]; intros a; simpl.
  - split; [lia | by intros x ?%elem_of_nil].
  - destruct (IH (Z.min a y)) as [H1 H2]. split; [lia |].
    intros x [->|Hx]%elem_of_cons; [lia | by apply H2].
Qed.

Lemma foldl_max_ge (l : list Z) a :
  a ≤ foldl Z.max a l ∧ ∀ x, x ∈ l → x ≤ foldl Z.max a l.
Proof.
  revert a. induction l as [|y l IH]; intros a; simpl.
  - split; [lia | by intros x ?%elem_of_nil].
  - destruct (IH (Z.max a y)) as [H1 H2]. split; [lia |].
    intros x [->|Hx]%elem_of_cons; [lia | by apply H2].
Qed.

Lemma Zlist_min_le (l : list Z) x : x ∈ l → Zlist_min l ≤ x.
Proof.
  destruct l as [|a l]; [by intros ?%elem_of_nil |]. simpl.
  destruct (foldl_min_le l a) as [H1 H2].
  intros [->|Hx]%elem_of_cons; [done | by apply H2].
Qed.

Lemma Zlist_max_ge (l : list Z) x : x ∈ l → x ≤ Zlist_max l.
Proof.
  destruct l as [|a l]; [by intros ?%elem_of_nil |]. simpl.
  destruct (foldl_max_ge l a) as [H1 H2].
  intros [->|Hx]%elem_of_cons; [done | by apply H2].
Qed.

Lemma group_keys_elem logs c : c ∈ group_keys logs ↔ c ∈ contract_address <$> logs.
Proof. unfold group_keys. by rewrite merge_sort_Permutation, elem_of_remove_dups. Qed.

Lemma group_keys_NoDup logs : NoDup (group_keys logs).
Proof.
  unfold group_keys. rewrite merge_sort_Permutation. apply NoDup_remove_dups.
Qed.

(** X3: the feature table has one row per distinct contract of the batch,
    in increasing order of address and without repetition; each row counts
    the transactions of its contract (at least one), brackets all their
    block numbers between min_block and max_block, and has a non-negative
    activity_span = max_block - min_block.  An empty batch gives no row. *)
Theorem X3_features_from_logs_df (logs_df : list LogEvent) :
  features_from_logs_df [] = [] ∧
  NoDup (contract <$> features_from_logs_df logs_df) ∧
  Sorted String.le (contract <$> features_from_logs_df logs_df) ∧
  (∀ c, c ∈ contract <$> features_from_logs_df logs_df ↔
        c ∈ contract_address <$> logs_df) ∧
  (∀ row, row ∈ features_from_logs_df logs_df →
     tx_count row = Z.of_nat (length (rows_of logs_df (contract row))) ∧
     1 ≤ tx_count row ∧
     activity_span row = max_block row - min_block row ∧
     0 ≤ activity_span row ∧
     ∀ r, r ∈ logs_df → contract_address r = contract row →
          min_block row ≤ block_number r ≤ max_block row).
Proof.
  assert (contract <$> features_from_logs_df logs_df = group_keys logs_df) as Hkeys.
  { unfold features_from_logs_df. rewrite <- list_fmap_compose. apply list_fmap_id. }
  split_and!.
  - done.
  - rewrite Hkeys. apply group_keys_NoDup.
  - rewrite Hkeys. unfold group_keys. apply Sorted_merge_sort. apply _.
  - intros c. rewrite Hkeys. apply group_keys_elem.
  - intros row (c & -> & Hc)%list_elem_of_fmap. cbn.
    apply group_keys_elem, list_elem_of_fmap in Hc as (r0 & -> & Hr0).
    assert (r0 ∈ rows_of logs_df (contract_address r0)) as Hin
      by (by apply list_elem_of_filter).
    assert (∀ r, r ∈ logs_df → contract_address r = contract_address r0 →
              Zlist_min (block_number <$> rows_of logs_df (contract_address r0))
              ≤ block_number r ≤
              Zlist_max (block_number <$> rows_of logs_df (contract_address r0)))
      as Hblocks.
    { intros r Hr Heq.
      assert (block_number r ∈ block_number <$> rows_of logs_df (contract_address r0)).
      { apply list_elem_of_fmap_2. by apply list_elem_of_filter. }
      split; [by apply Zlist_min_le | by apply Zlist_max_ge]. }
    split_and!; [done | | done | | done].
    + destruct (rows_of logs_df (contract_address r0)); [by apply elem_of_nil in Hin |].
      simpl. lia.
    + specialize (Hblocks r0 (proj2 (proj1 (list_elem_of_filter _ _ _) Hin)) eq_refl).
      lia.
Qed.
